(** * Portfolio.tsx: view router, project content and cursor/particle engine

  A shallow embedding of the stateful core of [src/Portfolio.tsx]:
  - the per-project content lookup of [ProjectPage] (the [useMemo] switch),
  - the route state of [Portfolio] with its two setters [onOpen]/[onBack],
  - the [FancyCursor] component: pointer tracking, the dark-background
    heuristic [isDarkBg], and the click handler [handleClick] with its
    [setTimeout]-driven clean-up.

  React state is modelled by explicit state passing: a call [setX(v)]
  replaces the field, a call [setX(f)] applies the updater [f] to it.
  JavaScript numbers: millisecond timestamps and ids are integers;
  pointer coordinates, which are only stored and compared with fixed
  bounds, are real numbers; the angle and the travel distance of a
  particle, which the click handler computes, are doubles: rational
  numbers on which every operation rounds to 53 significant bits, to
  nearest, ties to even (module [Double]).  Strings are byte strings
  (UTF-8). *)

From Stdlib Require Import ZArith List String Ascii Bool.
From Stdlib Require Import QArith Qround Qabs Qpower Lqa.
From Stdlib Require Import Reals Lra Lia.
Import ListNotations.

Close Scope Q_scope.

Set Warnings "-register-all".

Local Open Scope string_scope.
Local Open Scope list_scope.

(* ================================================================= *)
(** ** Project content *)

Module Content.

(** The object literals returned by the [switch (id)] of [ProjectPage]. *)
Record ProjectContent := {
  title   : string;
  bullets : list string;
  tech    : string;
  screens : list string
}.

(** The [default:] branch. *)
Definition placeholder : ProjectContent :=
  {| title := "Проект";
     bullets := ["Описание скоро"];
     tech := "";
     screens := [] |}.

(** [const content = React.useMemo(() => { switch (id) ... }, [id])]:
    a pure function of [id]; [case] labels compare with [===]. *)
Definition content (id : string) : ProjectContent :=
  if String.eqb id "crm" then
    {| title := "Мини‑CRM для отдела продаж";
       bullets := [ "Сделки: статусы, ответственные";
                    "Воронка: стадии, конверсии";
                    "Задачи: дедлайны, напоминания";
                    "BI‑вью: прогноз и отчётность" ];
       tech := "Excel + Python + Power BI";
       screens := ["/screens/crm1.png"; "/screens/crm2.png"] |}
  else if String.eqb id "game" then
    {| title := "Игровой прототип (2D)";
       bullets := [ "Экономика ресурсов"; "ИИ врагов";
                    "UI‑меню, туториал"; "Метрики удержания" ];
       tech := "Game Engine + JS/TS";
       screens := ["/screens/game1.png"; "/screens/game2.gif"] |}
  else if String.eqb id "etl" then
    {| title := "ETL‑пайплайн данных";
       bullets := [ "Парсинг CSV/HTTP"; "Очистка pandas";
                    "Витрина SQLite/Parquet"; "Дашборды Power BI" ];
       tech := "Python (pandas, requests)";
       screens := ["/screens/etl1.png"] |}
  else placeholder.

(** The placeholder value as the specification words it (English
    strings); kept apart from [placeholder], which is the code's. *)
Definition spec_placeholder : ProjectContent :=
  {| title := "Project";
     bullets := ["Description coming soon"];
     tech := "";
     screens := [] |}.

End Content.

(* ================================================================= *)
(** ** View router *)

Module Router.

(** [useState<{ page: "home" | "project"; id?: string }>({ page: "home" })] *)
Inductive Page := home | project.

Record Route := { page : Page; id : option string }.

Definition initial : Route := {| page := home; id := None |}.

(** [onOpen={(id) => setRoute({ page: "project", id })}] *)
Definition onOpen (pid : string) (_ : Route) : Route :=
  {| page := project; id := Some pid |}.

(** [onBack={() => setRoute({ page: "home" })}] *)
Definition onBack (_ : Route) : Route :=
  {| page := home; id := None |}.

(** What the root component renders: [<Home .../>] when
    [route.page === "home"], otherwise [<ProjectPage id={route.id!} .../>].
    The non-null assertion [route.id!] is the only place that reads
    [id]; reading an absent [id] is reported as [None]. *)
Inductive RouteState :=
| Home
| ProjectDetail (projectId : string).

Definition currentRoute (r : Route) : option RouteState :=
  match page r with
  | home => Some Home
  | project =>
      match id r with
      | Some pid => Some (ProjectDetail pid)
      | None => None
      end
  end.

(** The content shown for a route: [ProjectPage] resolves its [id]
    prop when it renders, not when the route is set. *)
Definition rendered (r : Route) : option Content.ProjectContent :=
  match currentRoute r with
  | Some (ProjectDetail pid) => Some (Content.content pid)
  | _ => None
  end.

(** The invariant behind [route.id!]: a project route carries an id. *)
Definition has_id (r : Route) : Prop :=
  page r = project -> exists pid, id r = Some pid.

(** The project cards of the home page ([projects] in [Portfolio]);
    only the [id] field takes part in routing. *)
Record Project := { pr_id : string; pr_tag : string }.

Definition projects : list Project :=
  [ {| pr_id := "crm";  pr_tag := "CRM"  |};
    {| pr_id := "game"; pr_tag := "Game" |};
    {| pr_id := "etl";  pr_tag := "Data" |} ].

End Router.

(* ================================================================= *)
(** ** Double-precision arithmetic *)

Module Double.

Local Open Scope Q_scope.

(** A double is a rational [m * 2 ^ s] with [|m| < 2 ^ 53].  The result
    of an operation is the exact result rounded to the nearest such
    number, ties to the even [m] (IEEE 754 binary64, round to nearest
    even).  The exponent is not bounded: with draws in [0, 1) no
    operation of the handler overflows, and its only results below
    [2 ^ -1022], products of a tiny draw by 28, are exact. *)

Definition pow2 (s : Z) : Q := 2 ^ s.

(** The binary exponent of [q > 0]: [2 ^ mag q <= q < 2 ^ (mag q + 1)]. *)
Definition mag (q : Q) : Z :=
  let k := (Z.log2 (Qnum q) - Z.log2 (Zpos (Qden q)))%Z in
  if Qle_bool (pow2 k) q then k else (k - 1)%Z.

(** The nearest integer, ties to even. *)
Definition rne (x : Q) : Z :=
  let f := Qfloor x in
  match Qcompare (x - inject_Z f) (1 # 2) with
  | Lt => f
  | Gt => (f + 1)%Z
  | Eq => if Z.even f then f else (f + 1)%Z
  end.

Definition prec : Z := 53.

Definition round_pos (q : Q) : Q :=
  let s := (mag q - (prec - 1))%Z in
  inject_Z (rne (q / pow2 s)) * pow2 s.

Definition rnd (q : Q) : Q :=
  Qred match Qcompare q 0 with
       | Eq => 0
       | Gt => round_pos q
       | Lt => - round_pos (- q)
       end.

(** The four operations of the handler, and a decimal literal. *)
Definition add (a b : Q) : Q := rnd (a + b).
Definition sub (a b : Q) : Q := rnd (a - b).
Definition mul (a b : Q) : Q := rnd (a * b).
Definition div (a b : Q) : Q := rnd (a / b).
Definition lit (q : Q) : Q := rnd q.

(** [Math.PI], the double [0x1.921fb54442d18p+1]. *)
Definition PI : Q := 884279719003555 # 281474976710656.

End Double.

(* ================================================================= *)
(** ** Custom cursor and click particles *)

Module Cursor.

Local Open Scope R_scope.

(** *** The DOM as the heuristic sees it *)

(** An element is its class string ([classList?.value], possibly
    absent) and its [parentElement]; the tree is finite, so the chain
    of ancestors ends in [null]. *)
Inductive Element :=
| El (classList : option string) (parentElement : option Element).

Definition classList (n : Element) : option string :=
  match n with El c _ => c end.

Definition parentElement (n : Element) : option Element :=
  match n with El _ p => p end.

(** [String.prototype.includes]: [sub] occurs somewhere in [s]. *)
Fixpoint includes (s sub : string) : bool :=
  String.prefix sub s
  || match s with
     | EmptyString => false
     | String _ s' => includes s' sub
     end.

(** [const cls = n.classList?.value || ""] *)
Definition cls (n : Element) : string :=
  match classList n with
  | Some v => v
  | None => ""
  end.

(** The test of the loop body: the class string carries one of the
    three dark-surface markers. *)
Definition marked (n : Element) : bool :=
  includes (cls n) "bg-black"
  || includes (cls n) "text-white"
  || includes (cls n) "bg-neutral-900".

(** [while (n) { if (...) return true; n = n.parentElement; } return false] *)
Fixpoint climb (n : Element) : bool :=
  match n with
  | El _ parent =>
      if marked n then true
      else match parent with
           | Some p => climb p
           | None => false
           end
  end.

Definition isDarkBg (el : option Element) : bool :=
  match el with
  | Some n => climb n
  | None => false
  end.

(** The element under the pointer followed by its ancestors. *)
Fixpoint chain (n : Element) : list Element :=
  match n with
  | El _ parent =>
      n :: match parent with
           | Some p => chain p
           | None => []
           end
  end.

Definition ancestors (el : option Element) : list Element :=
  match el with
  | Some n => chain n
  | None => []
  end.

(** *** Component state *)

Record MouseEvent := { clientX : R; clientY : R }.

Module Pos.
Record t := { x : R; y : R }.
End Pos.

Record Particle := {
  id    : Z;
  x     : R;
  y     : R;
  angle : Q;
  dist  : Q
}.

(** The four [useState] cells of [FancyCursor]. *)
Record State := {
  pos       : Pos.t;
  down      : bool;
  isDark    : bool;
  particles : list Particle
}.

Definition initial : State :=
  {| pos := {| Pos.x := 0; Pos.y := 0 |};
     down := false; isDark := false; particles := [] |}.

Definition setPos (p : Pos.t) (s : State) : State :=
  {| pos := p; down := down s; isDark := isDark s; particles := particles s |}.

Definition setDown (b : bool) (s : State) : State :=
  {| pos := pos s; down := b; isDark := isDark s; particles := particles s |}.

Definition setIsDark (b : bool) (s : State) : State :=
  {| pos := pos s; down := down s; isDark := b; particles := particles s |}.

Definition setParticles (f : list Particle -> list Particle) (s : State) : State :=
  {| pos := pos s; down := down s; isDark := isDark s;
     particles := f (particles s) |}.

(** *** Pointer handlers *)

(** [document.elementFromPoint]: the host's hit test at the time of
    the event. *)
Definition Document := R -> R -> option Element.

Definition mm (document : Document) (e : MouseEvent) (s : State) : State :=
  let s := setPos {| Pos.x := clientX e; Pos.y := clientY e |} s in
  let el := document (clientX e) (clientY e) in
  setIsDark (isDarkBg el) s.

Definition md (s : State) : State := setDown true s.
Definition mu (s : State) : State := setDown false s.

(** *** Click handler *)

(** What the handler reads from its environment: the value returned
    by the [k]-th call of [Math.random()] and the value returned by
    [Date.now()] in the [i]-th iteration of the loop. *)
Record Env := {
  random : nat -> Q;
  now    : nat -> Z
}.

Definition count : nat := 10.

(** The loop index and [count] as doubles. *)
Definition of_nat (n : nat) : Q := inject_Z (Z.of_nat n).

(** [(Math.PI * 2 * i) / count] *)
Definition slot (i : nat) : Q :=
  Double.div (Double.mul (Double.mul Double.PI 2) (of_nat i)) (of_nat count).

(** [(Math.random() - 0.5) * 0.4], for the draw [r]. *)
Definition jitter (r : Q) : Q :=
  Double.mul (Double.sub r (1 # 2)%Q) (Double.lit (4 # 10)%Q).

(** One iteration of the [for] loop: two draws, [angle] first. *)
Definition spawn (env : Env) (e : MouseEvent) (i : nat) : Particle :=
  let angle := Double.add (slot i) (jitter (random env (2 * i))) in
  let dist := Double.add 36 (Double.mul (random env (2 * i + 1)) 28) in
  {| id := (now env i + Z.of_nat i)%Z;
     x := clientX e; y := clientY e;
     angle := angle; dist := dist |}.

(** [for (let i = 0; i < count; i++) created.push(...)], with [n] the
    number of iterations still to run. *)
Fixpoint loop (env : Env) (e : MouseEvent) (n i : nat)
              (created : list Particle) : list Particle :=
  match n with
  | O => created
  | S n' => loop env e n' (S i) (created ++ [spawn env e i])
  end.

Definition batch (env : Env) (e : MouseEvent) : list Particle :=
  loop env e count 0 [].

(** The updater run by the timer:
    [p.filter((pt) => !created.some((c) => c.id === pt.id))] *)
Definition expire (created p : list Particle) : list Particle :=
  filter (fun pt => negb (existsb (fun c => Z.eqb (id c) (id pt)) created)) p.

(** The ids of a list of particles, in order. *)
Definition ids (l : list Particle) : list Z := map id l.

(** An environment in which the whole handler runs within the
    millisecond [t] and every draw is one half. *)
Definition steady (t : Z) : Env :=
  {| random := fun _ => (1 # 2)%Q; now := fun _ => t |}.

(** The same with every draw equal to [r]. *)
Definition drawing (r : Q) (t : Z) : Env :=
  {| random := fun _ => r; now := fun _ => t |}.

(** A clock that is set back by one millisecond after the first
    iteration of the loop. *)
Definition stepped_back : Env :=
  {| random := fun _ => (1 # 2)%Q;
     now := fun i => match i with O => 1000%Z | S _ => 999%Z end |}.

(** A pending [setTimeout]: its due time and the [created] array its
    closure captured. *)
Record Timer := { due : Z; created : list Particle }.

Definition delay : Z := 750.

(** The component together with the timers it has scheduled. *)
Record Engine := { ui : State; timers : list Timer }.

Definition start : Engine := {| ui := initial; timers := [] |}.

Definition lift (f : State -> State) (g : Engine) : Engine :=
  {| ui := f (ui g); timers := timers g |}.

(** [handleClick], run at time [t] of the event loop. *)
Definition handleClick (t : Z) (env : Env) (e : MouseEvent) (g : Engine) : Engine :=
  let created := batch env e in
  {| ui := setParticles (fun p => p ++ created) (ui g);
     timers := timers g ++ [ {| due := (t + delay)%Z; created := created |} ] |}.

(** Run, in the order they were scheduled, the callbacks that are due
    at time [t]; the others stay pending. *)
Fixpoint fire (t : Z) (ts : list Timer) (s : State) : list Timer * State :=
  match ts with
  | [] => ([], s)
  | tm :: ts' =>
      if (due tm <=? t)%Z
      then fire t ts' (setParticles (expire (created tm)) s)
      else let (rest, s') := fire t ts' s in (tm :: rest, s')
  end.

Definition elapse (t : Z) (g : Engine) : Engine :=
  let (rest, s) := fire t (timers g) (ui g) in
  {| ui := s; timers := rest |}.

End Cursor.

(* ================================================================= *)
(** ** The page as an event-driven system *)

Module App.

(** [Portfolio] owns the route; [FancyCursor] is always mounted under
    it and owns the cursor state and its timers. *)
Record World := { route : Router.Route; engine : Cursor.Engine }.

Definition start : World :=
  {| route := Router.initial; engine := Cursor.start |}.

(** Everything that makes a handler of the page run.  A click on a
    project card or on the back button also reaches the [window]
    listener; the trace then holds both events. *)
Inductive Event :=
| MouseMove (document : Cursor.Document) (e : Cursor.MouseEvent)
| MouseDown
| MouseUp
| Click (t : Z) (env : Cursor.Env) (e : Cursor.MouseEvent)
| Elapse (t : Z)
| CardClick (k : nat)
| BackClick.

Definition setRoute (f : Router.Route -> Router.Route) (w : World) : World :=
  {| route := f (route w); engine := engine w |}.

Definition onEngine (f : Cursor.Engine -> Cursor.Engine) (w : World) : World :=
  {| route := route w; engine := f (engine w) |}.

(** The card buttons exist only while [<Home>] is rendered, one per
    entry of [projects], each calling [onOpen(p.id)]; the back button
    exists only while [<ProjectPage>] is rendered. *)
Definition step (w : World) (ev : Event) : World :=
  match ev with
  | MouseMove document e => onEngine (Cursor.lift (Cursor.mm document e)) w
  | MouseDown => onEngine (Cursor.lift Cursor.md) w
  | MouseUp => onEngine (Cursor.lift Cursor.mu) w
  | Click t env e => onEngine (Cursor.handleClick t env e) w
  | Elapse t => onEngine (Cursor.elapse t) w
  | CardClick k =>
      match Router.page (route w), nth_error Router.projects k with
      | Router.home, Some p => setRoute (Router.onOpen (Router.pr_id p)) w
      | _, _ => w
      end
  | BackClick =>
      match Router.page (route w) with
      | Router.project => setRoute Router.onBack w
      | Router.home => w
      end
  end.

Definition run (w : World) (evs : list Event) : World :=
  fold_left step evs w.

(** A trace made of pointer moves only, each with the hit test the
    host answers at that moment. *)
Definition moves (l : list (Cursor.Document * Cursor.MouseEvent)) : list Event :=
  map (fun de => MouseMove (fst de) (snd de)) l.

End App.

(* ================================================================= *)
(** ** What [FancyCursor] draws *)

Module Render.

Import Cursor.
Local Open Scope R_scope.

(** [const color = isDark ? "#fff" : "#000"] *)
Definition color (s : State) : string :=
  if isDark s then "#fff" else "#000".

(** [animate={{ scale: down ? 0.95 : 1, rotate: 0 }}] *)
Definition scale (s : State) : R :=
  if down s then 0.95 else 1.

End Render.

(* ================================================================= *)
(** ** Hero tilt *)

Module Hero.

Local Open Scope R_scope.

(** [getBoundingClientRect()] of the illustration. *)
Record DOMRect := { left : R; top : R; width : R; height : R }.

(** The motion values [x] and [y] of [Portfolio], both created at 0. *)
Record Tilt := { x : R; y : R }.

Definition rest : Tilt := {| x := 0; y := 0 |}.

(** The offsets of the pointer from the centre of the box. *)
Definition dx (rect : DOMRect) (e : Cursor.MouseEvent) : R :=
  Cursor.clientX e - (left rect + width rect / 2).

Definition dy (rect : DOMRect) (e : Cursor.MouseEvent) : R :=
  Cursor.clientY e - (top rect + height rect / 2).

(** [handleMouseMove]: both motion values are overwritten. *)
Definition handleMouseMove (rect : DOMRect) (e : Cursor.MouseEvent) (_ : Tilt) : Tilt :=
  {| x := Rmax (-30) (Rmin 30 (dx rect e / 6));
     y := Rmax (-30) (Rmin 30 (dy rect e / 6)) |}.

End Hero.

(* ================================================================= *)
(** ** Runtime self-checks *)

Module SelfTest.

(** A skill tile; its icon is an element and takes no part in the
    checks. *)
Record Skill := { label : string }.

(** [skills] of [Portfolio]. *)
Definition skills : list Skill :=
  [ {| label := "SQL" |};
    {| label := "Power BI" |};
    {| label := "Python (pandas)" |};
    {| label := "Excel (модели)" |};
    {| label := "Git / GitHub" |};
    {| label := "Командная работа" |};
    {| label := "Игровые прототипы" |};
    {| label := "Коммуникации" |} ].

(** A string is truthy when it is not empty. *)
Definition truthy (s : string) : bool :=
  match s with
  | EmptyString => false
  | String _ _ => true
  end.

(** [console.assert(cond, msg)] logs [msg] when [cond] is false. *)
Definition console_assert (cond : bool) (msg : string) : list string :=
  if cond then [] else [msg].

(** [new Set(projects.map((p) => p.id)).has(k)] *)
Definition has (projects : list Router.Project) (k : string) : bool :=
  existsb (String.eqb k) (map Router.pr_id projects).

(** [runSelfTests]: the messages it logs, in order. *)
Definition runSelfTests (skills : list Skill) (projects : list Router.Project)
  : list string :=
  console_assert (4 <=? List.length skills)%nat "[TEST] skills array must have items"
  ++ console_assert (forallb (fun s => truthy (label s)) skills)
       "[TEST] each skill must have a label"
  ++ console_assert (3 <=? List.length projects)%nat "[TEST] projects must include 3 items"
  ++ console_assert (has projects "crm" && has projects "game" && has projects "etl")
       "[TEST] expected project ids: crm, game, etl".

(** The guard effect of [ProjectPage]; [content] is an object and
    [content.screens] an array, so only the title can fail. *)
Definition guardTests (c : Content.ProjectContent) : list string :=
  console_assert (truthy (Content.title c)) "[TEST] project content must exist"
  ++ console_assert true "[TEST] project screens must be array".

(** [content.screens.length > 0 && (...)]: is the screenshot grid drawn? *)
Definition showsScreens (c : Content.ProjectContent) : bool :=
  (0 <? List.length (Content.screens c))%nat.

End SelfTest.

(* ================================================================= *)
(** ** Vocabulary for the particle invariants *)

Module Live.

Import Cursor.

(** [pt] carries the id of a particle of the batch of [tm]. *)
Definition hits (tm : Timer) (pt : Particle) : bool :=
  existsb (fun c => Z.eqb (id c) (id pt)) (created tm).

(** No timer of [ts] that is due at [t] hits [pt]. *)
Definition survives (t : Z) (ts : list Timer) (pt : Particle) : bool :=
  forallb (fun tm => negb ((due tm <=? t)%Z && hits tm pt)) ts.

(** The batches whose timers are still to run, oldest first. *)
Definition pending (g : Engine) : list Particle :=
  List.concat (map created (timers g)).

(** [l] is [m] with some elements left out. *)
Inductive Subseq {A : Type} : list A -> list A -> Prop :=
| Subseq_nil : Subseq [] []
| Subseq_skip (a : A) (l m : list A) : Subseq l m -> Subseq l (a :: m)
| Subseq_keep (a : A) (l m : list A) : Subseq l m -> Subseq (a :: l) (a :: m).

(** The press and release events. *)
Definition button (b : bool) : App.Event :=
  if b then App.MouseDown else App.MouseUp.

Definition is_move (ev : App.Event) : bool :=
  match ev with
  | App.MouseMove _ _ => true
  | _ => false
  end.

Definition is_button (ev : App.Event) : bool :=
  match ev with
  | App.MouseDown | App.MouseUp => true
  | _ => false
  end.

End Live.

(* ================================================================= *)
(** * Properties *)

(** ** Content lookup *)

Section ContentProps.

Import Content.

Example content_crm : title (content "crm") = "Мини‑CRM для отдела продаж".
Proof. reflexivity. Qed.

Lemma content_default (id : string) :
  String.eqb id "crm" = false ->
  String.eqb id "game" = false ->
  String.eqb id "etl" = false ->
  content id = placeholder.
Proof.
  intros Hc Hg He. unfold content. now rewrite Hc, Hg, He.
Qed.

(** C3, as the specification words it, fails: for the unrecognised id
    "unknown-id" the lookup does not return the English placeholder. *)
Lemma content_unknown_not_spec_placeholder :
  content "unknown-id" <> spec_placeholder.
Proof. discriminate. Qed.

(** C3 (amended): for every id other than "crm", "game" and "etl" the
    lookup returns, without failing, exactly the code's placeholder:
    title "Проект", the single bullet "Описание скоро", an empty tech
    string and no screenshots. *)
Theorem content_unrecognized (id : string) :
  id <> "crm" -> id <> "game" -> id <> "etl" ->
  content id =
    {| title := "Проект"; bullets := ["Описание скоро"];
       tech := ""; screens := [] |}.
Proof.
  intros Hc Hg He.
  apply content_default; now apply String.eqb_neq.
Qed.

Lemma content_unrecognized_witness :
  "unknown-id" <> "crm" /\ "unknown-id" <> "game" /\ "unknown-id" <> "etl" /\
  content "unknown-id" =
    {| title := "Проект"; bullets := ["Описание скоро"];
       tech := ""; screens := [] |}.
Proof.
  refine (conj _ (conj _ (conj _ (content_unrecognized "unknown-id" _ _ _))));
    discriminate.
Defined.

(** C6: the three known ids resolve to pairwise distinct contents, none
    of them the placeholder (the code's or the specification's), each
    with a non-empty title and at least one bullet point. *)
Theorem content_known_distinct :
  content "crm" <> content "game" /\
  content "crm" <> content "etl" /\
  content "game" <> content "etl" /\
  Forall (fun id =>
            content id <> placeholder /\
            content id <> spec_placeholder /\
            title (content id) <> "" /\
            (1 <= List.length (bullets (content id)))%nat)
         ["crm"; "game"; "etl"].
Proof.
  repeat split; try discriminate.
  repeat constructor; try discriminate; simpl; lia.
Qed.

End ContentProps.

(** ** View router *)

Section RouterProps.

Import Router.

Lemma has_id_initial : has_id initial.
Proof. unfold has_id; simpl; discriminate. Qed.

Lemma has_id_onOpen (pid : string) (r : Route) : has_id (onOpen pid r).
Proof. intros _. now exists pid. Qed.

Lemma has_id_onBack (r : Route) : has_id (onBack r).
Proof. unfold has_id; simpl; discriminate. Qed.

Lemma has_id_step (w : App.World) (ev : App.Event) :
  has_id (App.route w) -> has_id (App.route (App.step w ev)).
Proof.
  intros Hw. destruct ev; simpl; try exact Hw.
  - destruct (page (App.route w)); [|exact Hw].
    destruct (nth_error projects k); [apply has_id_onOpen|exact Hw].
  - destruct (page (App.route w)) eqn:Hp; [exact Hw|apply has_id_onBack].
Qed.

Lemma has_id_run (evs : list App.Event) (w : App.World) :
  has_id (App.route w) -> has_id (App.route (App.run w evs)).
Proof.
  revert w. induction evs as [|ev evs IH]; intros w Hw; [exact Hw|].
  apply IH, has_id_step, Hw.
Qed.

Lemma run_app (w : App.World) (evs1 evs2 : list App.Event) :
  App.run w (evs1 ++ evs2) = App.run (App.run w evs1) evs2.
Proof. apply fold_left_app. Qed.

(** Only the two button handlers touch the route. *)
Lemma step_route_frame (w : App.World) (ev : App.Event) :
  match ev with
  | App.CardClick _ | App.BackClick => True
  | _ => App.route (App.step w ev) = App.route w
  end.
Proof. now destruct ev. Qed.

(** C5: for every string [pid], opening a project replaces the route by
    the project route carrying [pid], whatever the previous route and
    whether or not [pid] is a known id; the render then resolves it.
    Opening "crm" reads back as [ProjectDetail "crm"], and going back
    after that reads back as [Home]. *)
Theorem navigate_to_project (pid : string) (r : Route) :
  onOpen pid r = {| page := project; id := Some pid |} /\
  currentRoute (onOpen pid r) = Some (ProjectDetail pid) /\
  rendered (onOpen pid r) = Some (Content.content pid) /\
  currentRoute (onOpen "crm" r) = Some (ProjectDetail "crm") /\
  currentRoute (onBack (onOpen "crm" r)) = Some Home.
Proof. repeat split. Qed.

(** C8: the route has two shapes; pressing back always leaves the home
    route, also after several project pages were opened in the trace
    before it, and every event other than a card click or a back
    click leaves the route as it was. *)
Theorem back_returns_home_only_user_actions
    (w : App.World) (evs : list App.Event) (ev : App.Event) :
  (page (App.route w) = home \/ page (App.route w) = project) /\
  page (App.route (App.step w App.BackClick)) = home /\
  currentRoute (App.route (App.run w (evs ++ [App.BackClick]))) = Some Home /\
  match ev with
  | App.CardClick _ | App.BackClick => True
  | _ => App.route (App.step w ev) = App.route w
  end.
Proof.
  split; [destruct (page (App.route w)); auto|].
  assert (Hback : forall w', page (App.route (App.step w' App.BackClick)) = home).
  { intros w'. simpl. now destruct (page (App.route w')) eqn:Hp. }
  split; [apply Hback|]. split; [|apply step_route_frame].
  rewrite run_app. unfold currentRoute. cbn [App.run fold_left].
  now rewrite (Hback (App.run w evs)).
Qed.

(** C9: in every state the page reaches from its initial state, a route
    whose page is "project" has a defined id, so the [route.id!] of the
    render reads a string; opening a project and going back both keep
    this. *)
Theorem project_route_has_id (evs : list App.Event) :
  page (App.route (App.run App.start evs)) = project ->
  exists pid,
    id (App.route (App.run App.start evs)) = Some pid /\
    currentRoute (App.route (App.run App.start evs)) = Some (ProjectDetail pid).
Proof.
  intros Hp.
  destruct (has_id_run evs App.start has_id_initial Hp) as [pid Hid].
  exists pid. split; [exact Hid|].
  unfold currentRoute. now rewrite Hp, Hid.
Qed.

Lemma project_route_has_id_witness :
  page (App.route (App.run App.start [App.CardClick 1])) = project /\
  exists pid,
    id (App.route (App.run App.start [App.CardClick 1])) = Some pid /\
    currentRoute (App.route (App.run App.start [App.CardClick 1]))
      = Some (ProjectDetail pid).
Proof.
  split; [reflexivity|].
  apply (project_route_has_id [App.CardClick 1]). reflexivity.
Defined.

End RouterProps.

(** ** Pointer tracking and the dark-background heuristic *)

Section PointerProps.

Import Cursor.

Lemma prefix_app (sub s : string) :
  String.prefix sub s = true <-> exists post, s = (sub ++ post)%string.
Proof.
  revert s. induction sub as [|a sub IH]; intros s; simpl.
  - destruct s; split; eauto.
  - destruct s as [|b s]; simpl.
    + split; [discriminate|intros [post H]; discriminate].
    + destruct (Ascii.ascii_dec a b) as [->|Hab].
      * rewrite IH. split; intros [post H]; exists post.
        -- now rewrite H.
        -- now injection H.
      * split; [discriminate|]. intros [post H]. injection H as -> _.
        now elim Hab.
Qed.

(** [includes] is substring containment. *)
Lemma includes_spec (s sub : string) :
  includes s sub = true <->
  exists pre post, s = (pre ++ sub ++ post)%string.
Proof.
  induction s as [|a s IH]; cbn [includes].
  - rewrite orb_false_r, prefix_app. split.
    + intros [post H]. now exists ""%string, post.
    + intros [pre [post H]]. destruct pre; [now exists post|discriminate].
  - rewrite orb_true_iff, prefix_app, IH. split.
    + intros [[post H]|[pre [post H]]].
      * now exists ""%string, post.
      * exists (String a pre), post. simpl. now rewrite H.
    + intros [[|b pre] [post H]].
      * left. now exists post.
      * right. injection H as _ H. now exists pre, post.
Qed.

(** The [while] loop returns [true] exactly when one element of the
    chain passes the class test. *)
Lemma climb_chain (n : Element) : climb n = existsb marked (chain n).
Proof.
  revert n. fix IH 1. intros [c [p|]]; simpl.
  - rewrite (IH p). now destruct (marked (El c (Some p))).
  - now destruct (marked (El c None)).
Qed.

Lemma isDarkBg_ancestors (el : option Element) :
  isDarkBg el = existsb marked (ancestors el).
Proof. destruct el; [apply climb_chain|reflexivity]. Qed.

Lemma isDark_mm (document : Document) (e : MouseEvent) (s : State) :
  isDark (mm document e s) = isDarkBg (document (clientX e) (clientY e)).
Proof. reflexivity. Qed.

(** C4: a pointer move at (x, y) recomputes the flag from the element
    under the pointer alone: it becomes [true] if and only if some
    element of that element's ancestor chain carries a marker class,
    and [false] if and only if none does (in particular when there is
    no element at the point). *)
Theorem mm_dark_iff_marked_ancestor
    (document : Document) (e : MouseEvent) (s : State) :
  (isDark (mm document e s) = true <->
     exists n, In n (ancestors (document (clientX e) (clientY e)))
               /\ marked n = true) /\
  (isDark (mm document e s) = false <->
     forall n, In n (ancestors (document (clientX e) (clientY e))) ->
               marked n = false).
Proof.
  rewrite isDark_mm, isDarkBg_ancestors. split.
  - apply existsb_exists.
  - rewrite <- not_true_iff_false, existsb_exists. split.
    + intros H n Hn. apply not_true_iff_false. intros Hm. apply H. eauto.
    + intros H [n [Hn Hm]]. rewrite (H n Hn) in Hm. discriminate.
Qed.

(** The surfaces of the page: the dark "experience" section is seen as
    dark, the page root is not. *)
Example dark_section :
  isDarkBg
    (Some (El (Some "font-semibold")
       (Some (El (Some "bg-black text-white")
          (Some (El (Some "min-h-screen bg-white text-black font-sans") None))))))
  = true.
Proof. reflexivity. Qed.

Example light_root :
  isDarkBg (Some (El (Some "min-h-screen bg-white text-black font-sans") None))
  = false.
Proof. reflexivity. Qed.

(** The other handlers of the page leave the position alone. *)
Lemma pos_frame (w : App.World) (ev : App.Event) :
  match ev with
  | App.MouseMove _ _ => True
  | _ => pos (ui (App.engine (App.step w ev))) = pos (ui (App.engine w))
  end.
Proof.
  destruct ev; simpl; auto.
  - unfold elapse. destruct (fire t _ _) as [rest s'] eqn:Hf. simpl.
    revert Hf. generalize (ui (App.engine w)).
    generalize dependent rest.
    induction (timers (App.engine w)) as [|tm ts IH]; intros rest s Hf; simpl in Hf.
    + now injection Hf as _ <-.
    + destruct (due tm <=? t)%Z.
      * now rewrite (IH _ _ Hf).
      * destruct (fire t ts s) as [r1 s1] eqn:Hf1.
        injection Hf as _ <-. now apply (IH r1).
  - destruct (Router.page (App.route w)), (nth_error Router.projects k); reflexivity.
  - destruct (Router.page (App.route w)); reflexivity.
Qed.

(** C7: after any sequence of pointer moves has been processed, the
    stored position is the coordinate pair of the last move received. *)
Theorem pos_last_write_wins
    (w : App.World) (l : list (Document * MouseEvent))
    (document : Document) (e : MouseEvent) :
  pos (ui (App.engine (App.run w (App.moves (l ++ [(document, e)])))))
  = {| Pos.x := clientX e; Pos.y := clientY e |}.
Proof.
  unfold App.moves. rewrite map_app, run_app. reflexivity.
Qed.

End PointerProps.

(** ** Rounding to double precision *)

Section DoubleProps.
Import Double.
Local Open Scope Q_scope.

Lemma pow2_pos (s : Z) : 0 < pow2 s.
Proof. apply Qpower_0_lt. reflexivity. Qed.

Lemma pow2_le (a b : Z) : (a <= b)%Z -> pow2 a <= pow2 b.
Proof. intros H. apply Qpower_le_compat_l; [exact H|discriminate]. Qed.

Lemma pow2_lt_inv (a b : Z) : pow2 a < pow2 b -> (a < b)%Z.
Proof. intros H. apply (Qpower_lt_compat_l_inv 2); [exact H|reflexivity]. Qed.

Lemma pow2_add (a b : Z) : pow2 (a + b) == pow2 a * pow2 b.
Proof. apply Qpower_plus. discriminate. Qed.

Lemma pow2_Z (a : Z) : (0 <= a)%Z -> pow2 a == inject_Z (2 ^ a).
Proof. intros H. symmetry. now apply (Zpower_Qpower 2). Qed.

Lemma mag_spec (q : Q) : 0 < q -> pow2 (mag q) <= q /\ q < pow2 (mag q + 1).
Proof.
  intros Hq. unfold mag.
  set (n := Qnum q). set (d := Z.pos (Qden q)).
  set (a := Z.log2 n). set (b := Z.log2 d).
  assert (Hn : (0 < n)%Z).
  { unfold n. destruct q as [qn qd]. unfold Qlt in Hq. simpl in *. lia. }
  assert (Hd : (0 < d)%Z) by (unfold d; lia).
  destruct (Z.log2_spec n Hn) as [Ha1 Ha2]. fold a in Ha1, Ha2.
  destruct (Z.log2_spec d Hd) as [Hb1 Hb2]. fold b in Hb1, Hb2.
  assert (Ha0 : (0 <= a)%Z) by apply Z.log2_nonneg.
  assert (Hb0 : (0 <= b)%Z) by apply Z.log2_nonneg.
  assert (Hqd : q * inject_Z d == inject_Z n).
  { destruct q as [qn qd]. unfold Qeq, n, d. simpl. rewrite Pos.mul_1_r. ring. }
  assert (HD : 0 < inject_Z d) by (change 0 with (inject_Z 0); now rewrite <- Zlt_Qlt).
  assert (HN1 : pow2 a <= inject_Z n) by (rewrite pow2_Z by lia; now rewrite <- Zle_Qle).
  assert (HN2 : inject_Z n < pow2 (a + 1))
    by (rewrite pow2_Z by lia; rewrite <- Zlt_Qlt; lia).
  assert (HD1 : pow2 b <= inject_Z d) by (rewrite pow2_Z by lia; now rewrite <- Zle_Qle).
  assert (HD2 : inject_Z d < pow2 (b + 1))
    by (rewrite pow2_Z by lia; rewrite <- Zlt_Qlt; lia).
  assert (Hup : q < pow2 (a - b + 1)).
  { assert (E : pow2 (a + 1) == pow2 (a - b + 1) * pow2 b)
      by (rewrite <- pow2_add; f_equiv; lia).
    pose proof (pow2_pos (a - b + 1)). pose proof (pow2_pos b).
    rewrite E in HN2. Lqa.nra. }
  assert (Hlo : pow2 (a - b - 1) <= q).
  { assert (E : pow2 a == pow2 (a - b - 1) * pow2 (b + 1))
      by (rewrite <- pow2_add; f_equiv; lia).
    pose proof (pow2_pos (a - b - 1)). pose proof (pow2_pos (b + 1)).
    rewrite E in HN1. Lqa.nra. }
  destruct (Qle_bool (pow2 (a - b)) q) eqn:Hb.
  - apply Qle_bool_iff in Hb. split; assumption.
  - assert (Hlt : q < pow2 (a - b)).
    { apply Qnot_le_lt. intros H. apply Qle_bool_iff in H. congruence. }
    split; [exact Hlo|]. now replace (a - b - 1 + 1)%Z with (a - b)%Z by lia.
Qed.

Lemma Qcompare_cases (x y : Q) :
  match Qcompare x y with
  | Eq => x == y
  | Lt => x < y
  | Gt => y < x
  end.
Proof.
  destruct (Qcompare x y) eqn:C;
    [now apply Qeq_alt|now apply Qlt_alt|now apply Qgt_alt].
Qed.

Lemma rne_bounds (x : Q) : (Qfloor x <= rne x <= Qfloor x + 1)%Z.
Proof.
  unfold rne. destruct (Qcompare _ _); [destruct (Z.even _)| |]; lia.
Qed.

Lemma rne_mono (x y : Q) : x <= y -> (rne x <= rne y)%Z.
Proof.
  intros Hxy. pose proof (Qfloor_resp_le x y Hxy) as Hf.
  pose proof (rne_bounds x) as Bx. pose proof (rne_bounds y) as By.
  destruct (Z.eq_dec (Qfloor x) (Qfloor y)) as [E|NE]; [|lia].
  unfold rne. rewrite <- E.
  pose proof (Qcompare_cases (x - inject_Z (Qfloor x)) (1 # 2)) as Cx.
  pose proof (Qcompare_cases (y - inject_Z (Qfloor x)) (1 # 2)) as Cy.
  destruct (Qcompare (x - inject_Z (Qfloor x)) (1 # 2));
    destruct (Qcompare (y - inject_Z (Qfloor x)) (1 # 2));
    try (destruct (Z.even (Qfloor x))); try lia; exfalso; Lqa.lra.
Qed.

Lemma rne_ge_Z (z : Z) (x : Q) : inject_Z z <= x -> (z <= rne x)%Z.
Proof.
  intros H. apply Qfloor_resp_le in H. rewrite Qfloor_Z in H.
  pose proof (rne_bounds x). lia.
Qed.

Lemma rne_le_Z (z : Z) (x : Q) : x <= inject_Z z -> (rne x <= z)%Z.
Proof.
  intros H. pose proof (rne_bounds x) as B.
  destruct (Z_lt_le_dec (Qfloor x) z) as [Hlt|Hge]; [lia|].
  assert (Hfl : inject_Z (Qfloor x) <= x) by apply Qfloor_le.
  assert (Hz : inject_Z z <= inject_Z (Qfloor x)) by now rewrite <- Zle_Qle.
  assert (E : Qfloor x = z).
  { apply Z.le_antisymm; [|exact Hge]. rewrite Zle_Qle.
    now apply Qle_trans with x. }
  unfold rne. rewrite E.
  assert (C : Qcompare (x - inject_Z z) (1 # 2) = Lt).
  { apply (proj1 (Qlt_alt _ _)). rewrite E in Hfl. Lqa.lra. }
  rewrite C. lia.
Qed.

Lemma scaled_range (q : Q) :
  0 < q ->
  inject_Z (2 ^ 52) <= q / pow2 (mag q - (prec - 1)) /\
  q / pow2 (mag q - (prec - 1)) <= inject_Z (2 ^ 53).
Proof.
  intros Hq. destruct (mag_spec q Hq) as [Hlo Hhi].
  set (s := (mag q - (prec - 1))%Z) in *.
  pose proof (pow2_pos s) as Hs.
  assert (E1 : pow2 (mag q) == pow2 52 * pow2 s)
    by (rewrite <- pow2_add; f_equiv; unfold s, prec; lia).
  assert (E2 : pow2 (mag q + 1) == pow2 53 * pow2 s)
    by (rewrite <- pow2_add; f_equiv; unfold s, prec; lia).
  rewrite <- !pow2_Z by lia. rewrite E1 in Hlo. rewrite E2 in Hhi. split.
  - apply Qle_shift_div_l; assumption.
  - apply Qle_shift_div_r; [assumption|]. Lqa.lra.
Qed.

Lemma round_pos_range (q : Q) :
  0 < q -> pow2 (mag q) <= round_pos q /\ round_pos q <= pow2 (mag q + 1).
Proof.
  intros Hq. destruct (scaled_range q Hq) as [Hlo Hhi]. unfold round_pos.
  set (s := (mag q - (prec - 1))%Z) in *.
  pose proof (pow2_pos s) as Hs.
  apply rne_ge_Z in Hlo. apply rne_le_Z in Hhi.
  rewrite Zle_Qle in Hlo, Hhi. rewrite <- !pow2_Z in Hlo, Hhi by lia.
  assert (E1 : pow2 (mag q) == pow2 52 * pow2 s)
    by (rewrite <- pow2_add; f_equiv; unfold s, prec; lia).
  assert (E2 : pow2 (mag q + 1) == pow2 53 * pow2 s)
    by (rewrite <- pow2_add; f_equiv; unfold s, prec; lia).
  rewrite E1, E2. split; Lqa.nra.
Qed.

Lemma round_pos_mono (p q : Q) :
  0 < p -> p <= q -> round_pos p <= round_pos q.
Proof.
  intros Hp Hpq. assert (Hq : 0 < q) by Lqa.lra.
  destruct (mag_spec p Hp) as [Hp1 Hp2]. destruct (mag_spec q Hq) as [Hq1 Hq2].
  assert (Hm : (mag p <= mag q)%Z).
  { assert (H : pow2 (mag p) < pow2 (mag q + 1)) by Lqa.lra.
    apply pow2_lt_inv in H. lia. }
  destruct (Z.eq_dec (mag p) (mag q)) as [E|NE].
  - unfold round_pos. rewrite E.
    set (s := (mag q - (prec - 1))%Z). pose proof (pow2_pos s) as Hs.
    assert (Hr : (rne (p / pow2 s) <= rne (q / pow2 s))%Z).
    { apply rne_mono. apply Qmult_le_compat_r; [exact Hpq|].
      apply Qlt_le_weak, Qinv_lt_0_compat, Hs. }
    rewrite Zle_Qle in Hr. Lqa.nra.
  - destruct (round_pos_range p Hp) as [_ Hu].
    destruct (round_pos_range q Hq) as [Hl _].
    assert (H : pow2 (mag p + 1) <= pow2 (mag q)) by (apply pow2_le; lia).
    Lqa.lra.
Qed.

Lemma round_pos_pos (q : Q) : 0 < q -> 0 < round_pos q.
Proof.
  intros Hq. destruct (round_pos_range q Hq) as [Hl _].
  pose proof (pow2_pos (mag q)). Lqa.lra.
Qed.

(** Rounding never changes the order of two numbers. *)
Lemma rnd_mono (p q : Q) : p <= q -> rnd p <= rnd q.
Proof.
  intros Hpq. unfold rnd. rewrite !Qred_correct.
  pose proof (Qcompare_cases p 0) as Cp. pose proof (Qcompare_cases q 0) as Cq.
  destruct (Qcompare p 0); destruct (Qcompare q 0);
    try (exfalso; Lqa.lra); try Lqa.lra.
  - apply Qlt_le_weak, round_pos_pos. Lqa.lra.
  - assert (H : 0 < round_pos (- p)) by (apply round_pos_pos; Lqa.lra). Lqa.lra.
  - assert (H : round_pos (- q) <= round_pos (- p))
      by (apply round_pos_mono; Lqa.lra). Lqa.lra.
  - assert (H1 : 0 < round_pos (- p)) by (apply round_pos_pos; Lqa.lra).
    assert (H2 : 0 < round_pos q) by (apply round_pos_pos; Lqa.lra). Lqa.lra.
  - apply round_pos_mono; Lqa.lra.
Qed.

End DoubleProps.

(** ** Click particles *)

Section ParticleProps.

Import Cursor.
Local Open Scope R_scope.

Lemma loop_map (env : Env) (e : MouseEvent) (n i : nat) (acc : list Particle) :
  loop env e n i acc = acc ++ map (spawn env e) (seq i n).
Proof.
  revert i acc. induction n as [|n IH]; intros i acc; simpl.
  - now rewrite app_nil_r.
  - now rewrite IH, <- app_assoc.
Qed.

Lemma batch_map (env : Env) (e : MouseEvent) :
  batch env e = map (spawn env e) (seq 0 count).
Proof. unfold batch. now rewrite loop_map. Qed.

Lemma batch_length (env : Env) (e : MouseEvent) :
  List.length (batch env e) = count.
Proof. now rewrite batch_map, length_map, length_seq. Qed.

Lemma batch_nth (env : Env) (e : MouseEvent) (i : nat) :
  (i < count)%nat -> nth_error (batch env e) i = Some (spawn env e i).
Proof.
  intros Hi. rewrite batch_map, nth_error_map, nth_error_seq.
  apply Nat.ltb_lt in Hi. now rewrite Hi.
Qed.

Lemma batch_In (env : Env) (e : MouseEvent) (i : nat) :
  (i < count)%nat -> In (spawn env e i) (batch env e).
Proof. intros Hi. eapply nth_error_In, batch_nth, Hi. Qed.

Lemma batch_In_inv (env : Env) (e : MouseEvent) (p : Particle) :
  In p (batch env e) -> exists i, (i < count)%nat /\ p = spawn env e i.
Proof.
  rewrite batch_map, in_map_iff. intros [i [<- Hi]].
  apply in_seq in Hi. exists i. split; [lia|reflexivity].
Qed.

Lemma batch_ids (env : Env) (e : MouseEvent) :
  ids (batch env e) = map (fun i => (now env i + Z.of_nat i)%Z) (seq 0 count).
Proof. unfold ids. now rewrite batch_map, map_map. Qed.

(** The literal [0.4] and half of it, as doubles. *)
Lemma lit_04 : Double.lit (4 # 10)%Q = (3602879701896397 # 9007199254740992)%Q.
Proof. vm_compute. reflexivity. Qed.

Lemma jitter_range (r : Q) :
  (0 <= r < 1)%Q ->
  (- (3602879701896397 # 18014398509481984) <= jitter r
   <= 3602879701896397 # 18014398509481984)%Q.
Proof.
  intros [H0 H1]. unfold jitter, Double.mul. rewrite lit_04.
  assert (Ha : (- (1 # 2) <= Double.sub r (1 # 2) <= 1 # 2)%Q).
  { unfold Double.sub. split.
    - apply Qle_trans with (Double.rnd (- (1 # 2))); [vm_compute; discriminate|].
      apply rnd_mono. Lqa.lra.
    - apply Qle_trans with (Double.rnd (1 # 2)); [|vm_compute; discriminate].
      apply rnd_mono. Lqa.lra. }
  destruct Ha as [Ha0 Ha1]. set (a := Double.sub r (1 # 2)) in *. split.
  - apply Qle_trans
      with (Double.rnd (- (3602879701896397 # 18014398509481984)));
      [vm_compute; discriminate|].
    apply rnd_mono. Lqa.lra.
  - apply Qle_trans
      with (Double.rnd (3602879701896397 # 18014398509481984));
      [|vm_compute; discriminate].
    apply rnd_mono. Lqa.lra.
Qed.

(** Adding the largest jitter to a slot, or taking it away, stays
    within 0.2 + 1e-15 of the slot, for each of the ten slots. *)
Lemma slot_window (i : nat) :
  (i < 10)%nat ->
  (slot i - ((2 # 10) + (1 # 1000000000000000))
   <= Double.rnd (slot i + - (3602879701896397 # 18014398509481984)))%Q /\
  (Double.rnd (slot i + (3602879701896397 # 18014398509481984))
   <= slot i + ((2 # 10) + (1 # 1000000000000000)))%Q.
Proof.
  intros Hi.
  do 10 (destruct i as [|i]; [split; vm_compute; discriminate|]). lia.
Qed.

Lemma spawn_angle (env : Env) (e : MouseEvent) (i : nat) :
  (i < 10)%nat ->
  (0 <= random env (2 * i) < 1)%Q ->
  (Qabs (angle (spawn env e i) - slot i)
   <= (2 # 10) + (1 # 1000000000000000))%Q.
Proof.
  intros Hi Hr. destruct (jitter_range _ Hr) as [Hj0 Hj1].
  destruct (slot_window i Hi) as [Hlo Hhi].
  unfold spawn. cbn [angle]. unfold Double.add.
  set (j := jitter (random env (2 * i))) in *.
  assert (H1 : (Double.rnd (slot i + - (3602879701896397 # 18014398509481984))
                <= Double.rnd (slot i + j))%Q) by (apply rnd_mono; Lqa.lra).
  assert (H2 : (Double.rnd (slot i + j)
                <= Double.rnd (slot i + (3602879701896397 # 18014398509481984)))%Q)
    by (apply rnd_mono; Lqa.lra).
  apply Qabs_Qle_condition. split; Lqa.lra.
Qed.

Lemma spawn_dist (env : Env) (e : MouseEvent) (i : nat) :
  (0 <= random env (2 * i + 1) < 1)%Q ->
  (36 <= dist (spawn env e i) <= 64)%Q.
Proof.
  intros [H0 H1]. unfold spawn. cbn [dist]. unfold Double.add, Double.mul.
  set (r := random env (2 * i + 1)) in *.
  assert (Hp : (0 <= Double.rnd (r * 28) <= 28)%Q).
  { split.
    - apply Qle_trans with (Double.rnd 0); [vm_compute; discriminate|].
      apply rnd_mono. Lqa.lra.
    - apply Qle_trans with (Double.rnd 28); [|vm_compute; discriminate].
      apply rnd_mono. Lqa.lra. }
  destruct Hp as [Hp0 Hp1]. split.
  - apply Qle_trans with (Double.rnd 36); [vm_compute; discriminate|].
    apply rnd_mono. Lqa.lra.
  - apply Qle_trans with (Double.rnd 64); [|vm_compute; discriminate].
    apply rnd_mono. Lqa.lra.
Qed.







(** *** Expiry *)

Lemma expire_In (created p : list Particle) (pt : Particle) :
  In pt (expire created p) <-> In pt p /\ ~ In (id pt) (ids created).
Proof.
  unfold expire. rewrite filter_In, negb_true_iff, <- not_true_iff_false.
  rewrite existsb_exists. unfold ids. rewrite in_map_iff.
  split; intros [Hin Hno]; (split; [exact Hin|]); intros [c [H1 H2]];
    apply Hno; exists c.
  - split; [exact H2|]. now apply Z.eqb_eq.
  - apply Z.eqb_eq in H2. now split.
Qed.

(** The timer's updater removes every particle of its own batch. *)
Lemma expire_own (created p : list Particle) (c : Particle) :
  In c created -> ~ In c (expire created p).
Proof.
  intros Hc Hin. apply expire_In in Hin as [_ Hno].
  apply Hno. unfold ids. now apply in_map.
Qed.

(** It leaves a list alone when none of its ids belongs to the batch. *)
Lemma expire_disjoint (created p : list Particle) :
  (forall pt, In pt p -> ~ In (id pt) (ids created)) ->
  expire created p = p.
Proof.
  intros H. induction p as [|pt p IH]; [reflexivity|].
  assert (Hk : In pt (expire created (pt :: p))).
  { apply expire_In. split; [now left|]. apply H. now left. }
  unfold expire in *. simpl in *.
  destruct (negb _) eqn:Hb.
  - f_equal. apply IH. intros q Hq. apply H. now right.
  - exfalso. apply filter_In in Hk as [_ Hk]. congruence.
Qed.

Lemma fire_In (t : Z) (ts : list Timer) (s : State) (pt : Particle) :
  In pt (particles (snd (fire t ts s))) <->
  In pt (particles s) /\
  forall tm, In tm ts -> (due tm <= t)%Z -> ~ In (id pt) (ids (created tm)).
Proof.
  revert s. induction ts as [|tm ts IH]; intros s; simpl.
  - split; [intros H; split; [exact H|intros tm []]|now intros [H _]].
  - destruct (Z.leb_spec (due tm) t) as [Hdue|Hdue].
    + rewrite IH. simpl. rewrite expire_In. split.
      * intros [[Hin Hno] Hrest]. split; [exact Hin|].
        intros tm' [<-|Hin'] Hd; [exact Hno|now apply Hrest].
      * intros [Hin Hall]. repeat split; [exact Hin| |].
        -- apply Hall; [now left|exact Hdue].
        -- intros tm' Hin' Hd. apply Hall; [now right|exact Hd].
    + specialize (IH s). destruct (fire t ts s) as [rest s']. simpl in *.
      rewrite IH. split; intros [Hin Hall]; (split; [exact Hin|]).
      * intros tm' [<-|Hin'] Hd; [lia|now apply Hall].
      * intros tm' Hin' Hd. apply Hall; [now right|exact Hd].
Qed.

(** X14: once the display duration of a click has elapsed, none of the
    particles that click created is live. *)
Lemma batch_gone_after_delay
    (t t' : Z) (env : Env) (e : MouseEvent) (g : Engine) (c : Particle) :
  (t + delay <= t')%Z ->
  In c (batch env e) ->
  ~ In c (particles (ui (elapse t' (handleClick t env e g)))).
Proof.
  intros Ht Hc Hin. unfold elapse in Hin.
  destruct (fire t' _ _) as [rest s'] eqn:Hf. simpl in Hin.
  change s' with (snd (rest, s')) in Hin. rewrite <- Hf in Hin.
  apply fire_In in Hin as [_ Hall].
  apply (Hall {| due := (t + delay)%Z; created := batch env e |}).
  - simpl. apply in_or_app. right. now left.
  - exact Ht.
  - unfold ids. cbn [created]. now apply in_map.
Qed.

Lemma expire_keeps_disjoint (created p q : list Particle) :
  (forall pt, In pt q -> ~ In (id pt) (ids created)) ->
  expire created (p ++ q) = expire created p ++ q.
Proof.
  intros H. unfold expire. rewrite filter_app. f_equal.
  now apply expire_disjoint.
Qed.

(** C2 fails on the code: two clicks 3 ms apart, at different points.
    When the first click's timer runs at 1750 ms, the second click's
    own timer (due at 1753 ms) is still pending, yet seven of its ten
    particles, those whose ids 1003..1009 also occur in the first
    batch, are removed with the first batch; three stay live. *)
Theorem expiry_removes_overlapping_later_batch :
  ids (batch (steady 1003) {| clientX := 50; clientY := 60 |})
    = [1003; 1004; 1005; 1006; 1007; 1008; 1009; 1010; 1011; 1012]%Z /\
  ids (particles (ui (App.engine (App.run App.start
        [ App.Click 1000 (steady 1000) {| clientX := 10; clientY := 20 |};
          App.Click 1003 (steady 1003) {| clientX := 50; clientY := 60 |} ]))))
    = ([1000; 1001; 1002; 1003; 1004; 1005; 1006; 1007; 1008; 1009]
       ++ [1003; 1004; 1005; 1006; 1007; 1008; 1009; 1010; 1011; 1012])%Z /\
  map due (timers (App.engine (App.run App.start
        [ App.Click 1000 (steady 1000) {| clientX := 10; clientY := 20 |};
          App.Click 1003 (steady 1003) {| clientX := 50; clientY := 60 |};
          App.Elapse 1750 ])))
    = [1753%Z] /\
  ids (particles (ui (App.engine (App.run App.start
        [ App.Click 1000 (steady 1000) {| clientX := 10; clientY := 20 |};
          App.Click 1003 (steady 1003) {| clientX := 50; clientY := 60 |};
          App.Elapse 1750 ]))))
    = [1010; 1011; 1012]%Z.
Proof. repeat split. Qed.

End ParticleProps.

(* ================================================================= *)
(** * Further properties of the page *)

(** ** Project page and routing *)

Section PageProps.

Import Content Router SelfTest.

Lemma content_cases (id : string) :
  id = "crm" \/ id = "game" \/ id = "etl" \/ content id = placeholder.
Proof.
  destruct (String.eqb id "crm") eqn:Hc; [apply String.eqb_eq in Hc; now left|].
  destruct (String.eqb id "game") eqn:Hg;
    [apply String.eqb_eq in Hg; now right; left|].
  destruct (String.eqb id "etl") eqn:He;
    [apply String.eqb_eq in He; now right; right; left|].
  do 3 right. now apply content_default.
Qed.

(** X1: the guard effect of the project page logs nothing, whatever id
    the page is given: every content, the placeholder included, has a
    non-empty title and at least one bullet. *)
Theorem guard_never_fires (id : string) :
  guardTests (content id) = [] /\
  title (content id) <> "" /\
  bullets (content id) <> [].
Proof.
  destruct (content_cases id) as [ -> | [ -> | [ -> | Hd ] ] ];
    try rewrite Hd; repeat split; discriminate.
Qed.

(** X2: the screenshot grid is drawn exactly for the three known ids. *)
Theorem screens_iff_known (id : string) :
  showsScreens (content id) = true <->
  id = "crm" \/ id = "game" \/ id = "etl".
Proof.
  split.
  - intros H. destruct (content_cases id) as [ -> | [ -> | [ -> | Hd ] ] ]; auto.
    rewrite Hd in H. discriminate.
  - intros [ -> | [ -> | -> ] ]; reflexivity.
Qed.

(** Whatever the page has been through, a stored id is the id of one
    of the project cards. *)
Lemma route_id_of_card (evs : list App.Event) (pid : string) :
  id (App.route (App.run App.start evs)) = Some pid ->
  In pid (map pr_id projects).
Proof.
  remember (map pr_id projects) as cards eqn:Hcards.
  assert (Hgen : forall w,
    (forall q, id (App.route w) = Some q -> In q cards) ->
    forall q, id (App.route (App.run w evs)) = Some q -> In q cards).
  { induction evs as [|ev evs IH]; intros w Hw; [exact Hw|].
    simpl. apply IH. destruct ev; simpl; try exact Hw.
    - destruct (page (App.route w)); [|exact Hw].
      destruct (nth_error projects k) as [p|] eqn:Hk; [|exact Hw].
      simpl. intros q [= <-]. rewrite Hcards.
      apply in_map. eapply nth_error_In, Hk.
    - destruct (page (App.route w)); [exact Hw|]. simpl. discriminate. }
  apply Hgen. simpl. discriminate.
Qed.

(** X3: the [default] branch is never drawn: in every state the page can
    reach, a project view shows the content of one of the three cards,
    which is not the placeholder and comes with screenshots. *)
Theorem project_view_never_placeholder (evs : list App.Event) :
  page (App.route (App.run App.start evs)) = project ->
  exists pid,
    rendered (App.route (App.run App.start evs)) = Some (content pid) /\
    In pid ["crm"; "game"; "etl"] /\
    content pid <> placeholder /\
    showsScreens (content pid) = true.
Proof.
  intros Hp.
  destruct (has_id_run evs App.start has_id_initial Hp) as [pid Hid].
  exists pid. split; [unfold rendered, currentRoute; now rewrite Hp, Hid|].
  pose proof (route_id_of_card evs pid Hid) as Hin. split; [exact Hin|].
  simpl in Hin. destruct Hin as [<-|[<-|[<-|[]]]]; split;
    reflexivity || discriminate.
Qed.

Lemma project_view_never_placeholder_witness :
  page (App.route (App.run App.start
          [App.CardClick 0; App.BackClick; App.CardClick 2])) = project /\
  exists pid,
    rendered (App.route (App.run App.start
          [App.CardClick 0; App.BackClick; App.CardClick 2]))
      = Some (content pid) /\
    In pid ["crm"; "game"; "etl"] /\
    content pid <> placeholder /\
    showsScreens (content pid) = true.
Proof.
  split; [reflexivity|].
  apply (project_view_never_placeholder
           [App.CardClick 0; App.BackClick; App.CardClick 2]).
  reflexivity.
Defined.

Lemma home_route_initial (evs : list App.Event) :
  page (App.route (App.run App.start evs)) = home ->
  App.route (App.run App.start evs) = initial.
Proof.
  assert (Hgen : forall w,
    (page (App.route w) = home -> App.route w = initial) ->
    page (App.route (App.run w evs)) = home -> App.route (App.run w evs) = initial).
  { induction evs as [|ev evs IH]; intros w Hw; [exact Hw|].
    simpl. apply IH. destruct ev; simpl; try exact Hw.
    - destruct (page (App.route w)) eqn:Hpg; [|congruence].
      destruct (nth_error projects k); [simpl; discriminate|].
      intros _. now apply Hw.
    - destruct (page (App.route w)) eqn:Hpg; [|reflexivity].
      intros _. now apply Hw. }
  apply Hgen. reflexivity.
Qed.



(** X5: a silent run of the self-checks means: at least four skills, every
    skill labelled, at least three projects, and a project for each of
    the ids "crm", "game" and "etl". *)
Theorem runSelfTests_silent
    (sk : list Skill) (pr : list Project) :
  runSelfTests sk pr = [] ->
  (4 <= List.length sk)%nat /\
  (forall s, In s sk -> label s <> "") /\
  (3 <= List.length pr)%nat /\
  (forall k, In k ["crm"; "game"; "etl"] ->
             exists p, In p pr /\ pr_id p = k).
Proof.
  unfold runSelfTests, console_assert. intros H.
  destruct (4 <=? List.length sk)%nat eqn:H1; [|discriminate].
  destruct (forallb _ sk) eqn:H2; [|discriminate].
  destruct (3 <=? List.length pr)%nat eqn:H3; [|discriminate].
  destruct (has pr "crm" && has pr "game" && has pr "etl") eqn:H4; [|discriminate].
  split; [now apply Nat.leb_le|]. split; [|split; [now apply Nat.leb_le|]].
  - intros s Hs Hl. rewrite forallb_forall in H2. specialize (H2 s Hs).
    rewrite Hl in H2. discriminate.
  - apply andb_prop in H4 as [H4 He]. apply andb_prop in H4 as [Hc Hg].
    assert (Hhas : forall k, has pr k = true -> exists p, In p pr /\ pr_id p = k).
    { intros k Hk. unfold has in Hk. apply existsb_exists in Hk as [q [Hq Hkq]].
      apply in_map_iff in Hq as [p [Hpq Hp]]. exists p. split; [exact Hp|].
      apply String.eqb_eq in Hkq. congruence. }
    intros k [<-|[<-|[<-|[]]]]; now apply Hhas.
Qed.

Lemma runSelfTests_silent_witness :
  runSelfTests skills projects = [] /\
  (4 <= List.length skills)%nat /\
  (forall s, In s skills -> label s <> "") /\
  (3 <= List.length projects)%nat /\
  (forall k, In k ["crm"; "game"; "etl"] ->
             exists p, In p projects /\ pr_id p = k).
Proof.
  split; [reflexivity|].
  apply (runSelfTests_silent skills projects). reflexivity.
Defined.

End PageProps.

(** ** Hero tilt *)

Section HeroProps.

Import Hero.
Local Open Scope R_scope.

Lemma clamp_bounds (v : R) : -30 <= Rmax (-30) (Rmin 30 v) <= 30.
Proof.
  split; [apply Rmax_l|].
  apply Rmax_lub; [lra|apply Rmin_l].
Qed.

Lemma clamp_inside (v : R) : -30 <= v <= 30 -> Rmax (-30) (Rmin 30 v) = v.
Proof.
  intros [Hlo Hhi]. rewrite (Rmin_right 30 v Hhi). now apply Rmax_right.
Qed.

(** X6: wherever the pointer is and whatever the box of the illustration,
    both stored tilt values stay within [-30, 30], and they do not
    depend on the values stored before. *)
Theorem tilt_bounded (rect : DOMRect) (e : Cursor.MouseEvent) (t t' : Tilt) :
  -30 <= x (handleMouseMove rect e t) <= 30 /\
  -30 <= y (handleMouseMove rect e t) <= 30 /\
  handleMouseMove rect e t = handleMouseMove rect e t'.
Proof.
  repeat split; simpl; apply clamp_bounds.
Qed.

Lemma clamp_piecewise (v : R) :
  Rmax (-30) (Rmin 30 (v / 6))
  = if Rle_dec v (-180) then -30
    else if Rle_dec 180 v then 30
    else v / 6.
Proof.
  destruct (Rle_dec v (-180)) as [Hlo|Hlo].
  - rewrite Rmin_right by lra. apply Rmax_left. lra.
  - destruct (Rle_dec 180 v) as [Hhi|Hhi].
    + rewrite Rmin_left by lra. apply Rmax_right. lra.
    + apply clamp_inside. lra.
Qed.


(** The pointer on the centre of the box puts the tilt back to rest. *)
Theorem tilt_centre_rest (rect : DOMRect) (e : Cursor.MouseEvent) (t : Tilt) :
  Cursor.clientX e = left rect + width rect / 2 ->
  Cursor.clientY e = top rect + height rect / 2 ->
  handleMouseMove rect e t = rest.
Proof.
  intros Hx Hy. unfold handleMouseMove, rest, dx, dy. rewrite Hx, Hy.
  f_equal; rewrite clamp_inside; lra.
Qed.

Lemma tilt_centre_rest_witness :
  handleMouseMove {| left := 100; top := 50; width := 400; height := 300 |}
    {| Cursor.clientX := 300; Cursor.clientY := 200 |} {| x := 12; y := -30 |}
  = rest.
Proof.
  apply (tilt_centre_rest
           {| left := 100; top := 50; width := 400; height := 300 |}
           {| Cursor.clientX := 300; Cursor.clientY := 200 |}
           {| x := 12; y := -30 |}); simpl; lra.
Defined.

End HeroProps.

(** ** More on the dark-background heuristic *)

Section DarkProps.

Import Cursor.

Lemma chain_tail (n a : Element) :
  In a (chain n) -> exists pre, chain n = pre ++ chain a.
Proof.
  revert n. fix IH 1. intros [c par] Hin.
  destruct Hin as [Heq|Hin]; [exists []; now rewrite <- Heq|].
  destruct par as [p|]; [|destruct Hin].
  destruct (IH p Hin) as [pre Hpre].
  exists (El c (Some p) :: pre). cbn [chain]. now rewrite Hpre.
Qed.

(** X10: darkness is inherited: when some ancestor of the element under the
    pointer is itself seen as dark, so is the element. *)
Theorem dark_inherited (el : option Element) (a : Element) :
  In a (ancestors el) ->
  isDarkBg (Some a) = true ->
  isDarkBg el = true.
Proof.
  destruct el as [n|]; [|intros []]. simpl ancestors. intros Hin Ha.
  simpl in Ha. simpl. rewrite climb_chain in *.
  destruct (chain_tail n a Hin) as [pre ->].
  rewrite existsb_app, Ha. apply orb_true_r.
Qed.

Lemma dark_inherited_witness :
  isDarkBg (Some (El (Some "text-xs") (Some (El None
     (Some (El (Some "bg-black text-white") None)))))) = true.
Proof.
  apply (dark_inherited _ (El (Some "bg-black text-white") None)).
  - simpl. right. right. now left.
  - reflexivity.
Defined.

(** X11: the test is on substrings of the whole class string, not on class
    names: an element is seen as dark as soon as one of the three
    markers occurs anywhere in its class string, for instance inside
    "hover:bg-black", and whatever its ancestors are. *)
Theorem dark_by_substring
    (c pre post m : string) (parent : option Element) :
  In m ["bg-black"; "text-white"; "bg-neutral-900"] ->
  c = (pre ++ m ++ post)%string ->
  isDarkBg (Some (El (Some c) parent)) = true.
Proof.
  intros Hm Hc.
  assert (Hinc : includes c m = true) by (apply includes_spec; eauto).
  assert (Hmk : marked (El (Some c) parent) = true).
  { unfold marked, cls. cbn [classList].
    destruct Hm as [<-|[<-|[<-|[]]]]; rewrite Hinc;
      rewrite ?orb_true_r; reflexivity. }
  cbn [isDarkBg climb]. now rewrite Hmk.
Qed.

Lemma dark_by_substring_witness :
  isDarkBg
    (Some (El (Some "underline hover:bg-black transition-colors")
       (Some (El (Some "sticky top-0 z-50 bg-white/90") None)))) = true.
Proof.
  apply (dark_by_substring _ "underline hover:" " transition-colors" "bg-black").
  - now left.
  - reflexivity.
Defined.

End DarkProps.

(** ** Press state *)

Section PressProps.

Import Cursor Live.

Lemma filter_filter {A : Type} (f g : A -> bool) (l : list A) :
  filter f (filter g l) = filter (fun a => g a && f a) l.
Proof.
  induction l as [|a l IH]; [reflexivity|]. simpl.
  destruct (g a); simpl; [destruct (f a)|]; now rewrite IH.
Qed.

Lemma filter_all {A : Type} (f : A -> bool) (l : list A) :
  (forall a, In a l -> f a = true) -> filter f l = l.
Proof.
  induction l as [|a l IH]; intros H; [reflexivity|]. simpl.
  rewrite (H a) by now left. f_equal. apply IH. intros b Hb. apply H. now right.
Qed.

Lemma filter_none {A : Type} (f : A -> bool) (l : list A) :
  (forall a, In a l -> f a = false) -> filter f l = [].
Proof.
  induction l as [|a l IH]; intros H; [reflexivity|]. simpl.
  rewrite (H a) by now left. apply IH. intros b Hb. apply H. now right.
Qed.

Lemma setParticles_eq (f g : list Particle -> list Particle) (s : State) :
  f (particles s) = g (particles s) -> setParticles f s = setParticles g s.
Proof. unfold setParticles. now intros ->. Qed.

(** Running the due timers is one filter over the list of particles:
    a particle stays when no due timer holds its id. *)
Lemma fire_closed (t : Z) (ts : list Timer) (s : State) :
  fire t ts s
  = (filter (fun tm => negb (due tm <=? t)%Z) ts,
     setParticles (filter (survives t ts)) s).
Proof.
  revert s. induction ts as [|tm ts IH]; intros s; simpl.
  - f_equal. destruct s. unfold setParticles. simpl. f_equal.
    symmetry. now apply filter_all.
  - destruct (due tm <=? t)%Z eqn:Hd; simpl.
    + rewrite IH. f_equal. unfold setParticles. simpl. f_equal.
      unfold expire. rewrite filter_filter. apply filter_ext.
      intros pt. unfold survives. cbn [forallb]. now rewrite Hd.
    + rewrite IH. f_equal. apply setParticles_eq, filter_ext.
      intros pt. unfold survives. cbn [forallb]. now rewrite Hd.
Qed.

Lemma elapse_closed (t : Z) (g : Engine) :
  elapse t g
  = {| ui := setParticles (filter (survives t (timers g))) (ui g);
       timers := filter (fun tm => negb (due tm <=? t)%Z) (timers g) |}.
Proof. unfold elapse. now rewrite fire_closed. Qed.

Lemma down_frame (w : App.World) (ev : App.Event) :
  is_button ev = false ->
  down (ui (App.engine (App.step w ev))) = down (ui (App.engine w)).
Proof.
  destruct ev; simpl; try discriminate; intros _; try reflexivity.
  - now rewrite elapse_closed.
  - destruct (Router.page (App.route w)), (nth_error Router.projects k); reflexivity.
  - destruct (Router.page (App.route w)); reflexivity.
Qed.

(** X12: the pressed flag, and with it the scale of the arrow, follows the
    last press or release: moves, clicks, timers and navigation that
    come after it do not touch it. *)
Theorem down_follows_last_button
    (w : App.World) (evs rest : list App.Event) (b : bool) :
  forallb (fun ev => negb (is_button ev)) rest = true ->
  down (ui (App.engine (App.run w (evs ++ button b :: rest)))) = b /\
  Render.scale (ui (App.engine (App.run w (evs ++ button b :: rest))))
  = if b then 0.95%R else 1%R.
Proof.
  intros Hrest.
  assert (Hd : down (ui (App.engine (App.run w (evs ++ button b :: rest)))) = b).
  { rewrite run_app. generalize (App.run w evs). intros w'.
    change (App.run w' (button b :: rest))
      with (App.run (App.step w' (button b)) rest).
    assert (H0 : down (ui (App.engine (App.step w' (button b)))) = b)
      by now destruct b.
    revert H0. generalize (App.step w' (button b)). clear w'.
    induction rest as [|ev rest IH]; intros w' H0; [exact H0|].
    simpl in Hrest. apply andb_prop in Hrest as [Hev Hrest].
    simpl. apply IH; [exact Hrest|].
    rewrite down_frame; [exact H0|]. now apply negb_true_iff. }
  split; [exact Hd|]. unfold Render.scale. now rewrite Hd.
Qed.

Lemma down_follows_last_button_witness :
  down (ui (App.engine (App.run App.start
    ([App.MouseDown; App.MouseUp] ++ button true ::
     [App.Click 1000 (steady 1000) {| clientX := 1; clientY := 2 |};
      App.Elapse 2000; App.CardClick 0])))) = true.
Proof.
  apply (down_follows_last_button App.start [App.MouseDown; App.MouseUp]
    [App.Click 1000 (steady 1000) {| clientX := 1; clientY := 2 |};
     App.Elapse 2000; App.CardClick 0] true).
  reflexivity.
Defined.

End PressProps.

(** ** Life and death of particles *)

Section LifeProps.

Import Cursor Live.

(** *** Subsequences *)

Lemma Subseq_refl {A : Type} (l : list A) : Subseq l l.
Proof. induction l; constructor; assumption. Qed.

Lemma Subseq_nil_l {A : Type} (m : list A) : Subseq [] m.
Proof. induction m; constructor; assumption. Qed.

Lemma Subseq_app {A : Type} (l l' m m' : list A) :
  Subseq l m -> Subseq l' m' -> Subseq (l ++ l') (m ++ m').
Proof.
  intros H H'. induction H; simpl; try (constructor; assumption). exact H'.
Qed.

Lemma Subseq_filter {A : Type} (f : A -> bool) (l : list A) :
  Subseq (filter f l) l.
Proof.
  induction l as [|a l IH]; simpl; [constructor|].
  destruct (f a); constructor; assumption.
Qed.

Lemma Subseq_filter_mono {A : Type} (f : A -> bool) (l m : list A) :
  Subseq l m -> Subseq (filter f l) (filter f m).
Proof.
  intros H. induction H; simpl; [constructor| |].
  - destruct (f a); [constructor|]; assumption.
  - destruct (f a); [constructor|]; assumption.
Qed.

Lemma Subseq_trans {A : Type} (l m n : list A) :
  Subseq l m -> Subseq m n -> Subseq l n.
Proof.
  intros Hlm Hmn. revert l Hlm.
  induction Hmn as [|a m n Hmn IH|a m n Hmn IH]; intros l Hlm.
  - exact Hlm.
  - constructor. now apply IH.
  - inversion Hlm; subst.
    + apply Subseq_skip. now apply IH.
    + apply Subseq_keep. now apply IH.
Qed.

Lemma Subseq_length {A : Type} (l m : list A) :
  Subseq l m -> (List.length l <= List.length m)%nat.
Proof. intros H. induction H; simpl; lia. Qed.

Lemma Subseq_nil_r {A : Type} (l : list A) : Subseq l [] -> l = [].
Proof. intros H. now inversion H. Qed.

(** *** Advancing time *)

Lemma survives_later (t1 t2 : Z) (ts : list Timer) (pt : Particle) :
  (t1 <= t2)%Z ->
  survives t1 ts pt
  && survives t2 (filter (fun tm => negb (due tm <=? t1)%Z) ts) pt
  = survives t2 ts pt.
Proof.
  intros Hle. unfold survives. induction ts as [|tm ts IH]; [reflexivity|].
  cbn [forallb filter]. rewrite <- IH.
  destruct (due tm <=? t1)%Z eqn:H1; destruct (due tm <=? t2)%Z eqn:H2;
    cbn [negb andb forallb]; rewrite ?H2; cbn [negb andb].
  - now rewrite <- andb_assoc.
  - apply Z.leb_le in H1. apply Z.leb_gt in H2. lia.
  - destruct (hits tm pt); cbn [negb andb]; [now rewrite andb_false_r|reflexivity].
  - reflexivity.
Qed.

(** X16: letting time pass in two steps is the same as letting it pass in
    one: the timers that run in between leave exactly the state the
    later step would have produced by itself. *)
Theorem elapse_elapse (t1 t2 : Z) (g : Engine) :
  (t1 <= t2)%Z ->
  elapse t2 (elapse t1 g) = elapse t2 g.
Proof.
  intros Hle. rewrite !elapse_closed. cbn [ui timers]. f_equal.
  - unfold setParticles. cbn [pos down isDark particles]. f_equal.
    rewrite filter_filter. apply filter_ext. intros pt.
    now apply survives_later.
  - rewrite filter_filter. apply filter_ext. intros tm.
    destruct (Z.leb_spec (due tm) t1), (Z.leb_spec (due tm) t2);
      try reflexivity; lia.
Qed.

Lemma elapse_elapse_witness :
  elapse 1760 (elapse 1750
    (handleClick 1003 (steady 1003) {| clientX := 5; clientY := 6 |}
       (handleClick 1000 (steady 1000) {| clientX := 1; clientY := 2 |} start)))
  = elapse 1760
    (handleClick 1003 (steady 1003) {| clientX := 5; clientY := 6 |}
       (handleClick 1000 (steady 1000) {| clientX := 1; clientY := 2 |} start)).
Proof. apply (elapse_elapse 1750 1760). lia. Defined.

(** *** The live list against the pending timers *)

Lemma hits_own (tm : Timer) (c : Particle) :
  In c (created tm) -> hits tm c = true.
Proof.
  intros Hc. apply existsb_exists. exists c. split; [exact Hc|apply Z.eqb_refl].
Qed.

Lemma pending_after_fire (t : Z) (all ts : list Timer) :
  incl ts all ->
  Subseq (filter (survives t all) (List.concat (map created ts)))
         (List.concat (map created (filter (fun tm => negb (due tm <=? t)%Z) ts))).
Proof.
  induction ts as [|tm ts IH]; intros Hincl; [constructor|].
  assert (Hts : incl ts all) by (intros a Ha; apply Hincl; now right).
  cbn [map List.concat filter]. rewrite filter_app.
  destruct (due tm <=? t)%Z eqn:Hd; cbn [negb].
  - replace (filter (survives t all) (created tm)) with (@nil Particle).
    + now apply IH.
    + symmetry. apply filter_none.
      intros c Hc. unfold survives. apply not_true_iff_false. intros Hs.
      rewrite forallb_forall in Hs. specialize (Hs tm (Hincl tm (or_introl eq_refl))).
      rewrite Hd, (hits_own tm c Hc) in Hs. discriminate.
  - cbn [map List.concat]. apply Subseq_app; [apply Subseq_filter|now apply IH].
Qed.

(** The invariant of the engine: the live particles are a subsequence
    of the batches still waiting for their timer, and every pending
    batch has ten particles. *)
Lemma engine_invariant (evs : list App.Event) :
  Subseq (particles (ui (App.engine (App.run App.start evs))))
         (pending (App.engine (App.run App.start evs))) /\
  Forall (fun tm => List.length (created tm) = count)
         (timers (App.engine (App.run App.start evs))).
Proof.
  assert (Hgen : forall w,
    Subseq (particles (ui (App.engine w))) (pending (App.engine w)) /\
    Forall (fun tm => List.length (created tm) = count) (timers (App.engine w)) ->
    Subseq (particles (ui (App.engine (App.run w evs))))
           (pending (App.engine (App.run w evs))) /\
    Forall (fun tm => List.length (created tm) = count)
           (timers (App.engine (App.run w evs)))).
  { induction evs as [|ev evs IH]; intros w Hw; [exact Hw|].
    cbn [App.run fold_left]. apply IH. destruct Hw as [Hs Hf].
    destruct ev; cbn [App.step App.onEngine App.engine]; auto.
    - unfold handleClick, pending in *. cbn [ui timers particles setParticles].
      split.
      + rewrite map_app, concat_app.
        apply Subseq_app; [exact Hs|]. cbn [map List.concat created].
        rewrite app_nil_r. apply Subseq_refl.
      + apply Forall_app. split; [exact Hf|].
        constructor; [apply batch_length|constructor].
    - rewrite elapse_closed. unfold pending. cbn [ui timers particles setParticles].
      split.
      + eapply Subseq_trans;
          [apply Subseq_filter_mono, Hs|apply pending_after_fire, incl_refl].
      + rewrite Forall_forall in *. intros tm Htm.
        apply filter_In in Htm as [Htm _]. now apply Hf.
    - destruct (Router.page (App.route w)), (nth_error Router.projects k); auto.
    - destruct (Router.page (App.route w)); auto. }
  apply Hgen. split; [constructor|constructor].
Qed.

Lemma pending_length (ts : list Timer) :
  Forall (fun tm => List.length (created tm) = count) ts ->
  List.length (List.concat (map created ts)) = (count * List.length ts)%nat.
Proof.
  induction 1 as [|tm ts Htm _ IH]; [simpl; lia|].
  cbn [map List.concat]. rewrite length_app, IH, Htm. simpl. lia.
Qed.

(** X17: however the page is used, the particles on screen are, in order,
    a subsequence of the batches whose timers are still pending; there
    are never more than ten of them per pending timer. *)
Theorem live_within_pending (evs : list App.Event) :
  Subseq (particles (ui (App.engine (App.run App.start evs))))
         (pending (App.engine (App.run App.start evs))) /\
  (List.length (particles (ui (App.engine (App.run App.start evs))))
   <= 10 * List.length (timers (App.engine (App.run App.start evs))))%nat.
Proof.
  destruct (engine_invariant evs) as [Hs Hf]. split; [exact Hs|].
  apply Subseq_length in Hs. unfold pending in Hs.
  rewrite (pending_length _ Hf) in Hs. exact Hs.
Qed.

(** X18: no particle outlives the timers: once time has passed the due
    time of every pending timer, nothing is live and nothing is
    pending. *)
Theorem all_expired_then_empty (evs : list App.Event) (t : Z) :
  (forall tm, In tm (timers (App.engine (App.run App.start evs))) ->
              (due tm <= t)%Z) ->
  particles (ui (App.engine (App.run App.start (evs ++ [App.Elapse t])))) = [] /\
  timers (App.engine (App.run App.start (evs ++ [App.Elapse t]))) = [].
Proof.
  intros Hdue.
  assert (Ht : timers (App.engine (App.run App.start (evs ++ [App.Elapse t]))) = []).
  { rewrite run_app. cbn [App.run fold_left App.step App.onEngine App.engine].
    rewrite elapse_closed. cbn [timers].
    apply filter_none. intros tm Htm.
    apply negb_false_iff, Z.leb_le. now apply Hdue. }
  split; [|exact Ht].
  destruct (engine_invariant (evs ++ [App.Elapse t])) as [Hs _].
  unfold pending in Hs. rewrite Ht in Hs. now apply Subseq_nil_r.
Qed.

Lemma all_expired_then_empty_witness :
  particles (ui (App.engine (App.run App.start
    ([ App.Click 1000 (steady 1000) {| clientX := 10; clientY := 20 |};
       App.Click 1003 (steady 1003) {| clientX := 50; clientY := 60 |} ]
     ++ [App.Elapse 1753])))) = [] /\
  timers (App.engine (App.run App.start
    ([ App.Click 1000 (steady 1000) {| clientX := 10; clientY := 20 |};
       App.Click 1003 (steady 1003) {| clientX := 50; clientY := 60 |} ]
     ++ [App.Elapse 1753]))) = [].
Proof.
  apply (all_expired_then_empty
    [ App.Click 1000 (steady 1000) {| clientX := 10; clientY := 20 |};
      App.Click 1003 (steady 1003) {| clientX := 50; clientY := 60 |} ] 1753).
  intros tm [<-|[<-|[]]]; simpl; unfold delay; lia.
Defined.

Lemma batch_gone_after_delay_witness :
  ~ In (spawn (steady 1000) {| clientX := 10; clientY := 20 |} 4)
       (particles (ui (elapse 1900
          (handleClick 1000 (steady 1000) {| clientX := 10; clientY := 20 |}
             (handleClick 990 (steady 990) {| clientX := 0; clientY := 0 |}
                start))))).
Proof.
  apply (batch_gone_after_delay 1000 1900 (steady 1000)
           {| clientX := 10; clientY := 20 |}).
  - unfold delay. lia.
  - apply batch_In. unfold count. lia.
Defined.

Lemma expire_self (c : list Particle) : expire c c = [].
Proof.
  apply filter_none. intros pt Hpt. apply negb_false_iff.
  apply existsb_exists. exists pt. split; [exact Hpt|apply Z.eqb_refl].
Qed.

Lemma far_ids_disjoint (env1 env2 : Env) (e1 e2 : MouseEvent) (pt : Particle) :
  (forall i j, (i < count)%nat -> (j < count)%nat ->
               (10 <= Z.abs (now env2 j - now env1 i))%Z) ->
  In pt (batch env2 e2) -> ~ In (id pt) (ids (batch env1 e1)).
Proof.
  intros Hfar Hpt Hin. apply batch_In_inv in Hpt as [j [Hj ->]].
  unfold ids in Hin. apply in_map_iff in Hin as [c [Hid Hc]].
  apply batch_In_inv in Hc as [i [Hi ->]].
  specialize (Hfar i j Hi Hj). unfold count in *. simpl in Hid. lia.
Qed.

(** X15: two clicks whose timestamps are at least 10 ms apart do not
    interfere: when the first click's timer has run and the second
    one's has not, exactly the second batch is live, in full, and its
    timer is the only one pending. *)
Theorem far_batches_independent
    (u1 u2 t : Z) (env1 env2 : Env) (e1 e2 : MouseEvent) :
  (forall i j, (i < count)%nat -> (j < count)%nat ->
               (10 <= Z.abs (now env2 j - now env1 i))%Z) ->
  (u1 + delay <= t < u2 + delay)%Z ->
  particles (ui (elapse t (handleClick u2 env2 e2 (handleClick u1 env1 e1 start))))
    = batch env2 e2 /\
  timers (elapse t (handleClick u2 env2 e2 (handleClick u1 env1 e1 start)))
    = [ {| due := (u2 + delay)%Z; created := batch env2 e2 |} ].
Proof.
  intros Hfar [H1 H2]. unfold elapse, handleClick, start.
  cbn [timers ui app fire due created].
  apply Z.leb_le in H1. apply Z.leb_gt in H2. rewrite H1, H2.
  cbn [ui timers particles setParticles initial app]. split; [|reflexivity].
  rewrite expire_keeps_disjoint by (intros pt; apply far_ids_disjoint, Hfar).
  now rewrite expire_self.
Qed.

Lemma far_batches_independent_witness :
  particles (ui (elapse 1750
     (handleClick 1010 (steady 1010) {| clientX := 50; clientY := 60 |}
        (handleClick 1000 (steady 1000) {| clientX := 10; clientY := 20 |} start))))
    = batch (steady 1010) {| clientX := 50; clientY := 60 |} /\
  timers (elapse 1750
     (handleClick 1010 (steady 1010) {| clientX := 50; clientY := 60 |}
        (handleClick 1000 (steady 1000) {| clientX := 10; clientY := 20 |} start)))
    = [ {| due := (1010 + delay)%Z;
           created := batch (steady 1010) {| clientX := 50; clientY := 60 |} |} ].
Proof.
  apply (far_batches_independent 1000 1010 1750 (steady 1000) (steady 1010)).
  - intros i j _ _. simpl. lia.
  - unfold delay. lia.
Defined.

End LifeProps.

(** ** The pointer between two moves *)

Section StalePointerProps.

Import Cursor Live.

Lemma pointer_frame (w : App.World) (ev : App.Event) :
  is_move ev = false ->
  pos (ui (App.engine (App.step w ev))) = pos (ui (App.engine w)) /\
  isDark (ui (App.engine (App.step w ev))) = isDark (ui (App.engine w)).
Proof.
  destruct ev; simpl; try discriminate; intros _; try (split; reflexivity).
  - now rewrite elapse_closed.
  - destruct (Router.page (App.route w)), (nth_error Router.projects k);
      split; reflexivity.
  - destruct (Router.page (App.route w)); split; reflexivity.
Qed.

(** X13: position and colour of the arrow are those of the last pointer
    move: the hit test is made at that move only, so presses, clicks,
    timers and a change of view under a resting pointer leave both as
    they were. *)
Theorem pointer_follows_last_move
    (w : App.World) (evs rest : list App.Event)
    (document : Document) (e : MouseEvent) :
  forallb (fun ev => negb (is_move ev)) rest = true ->
  pos (ui (App.engine (App.run w (evs ++ App.MouseMove document e :: rest))))
    = {| Pos.x := clientX e; Pos.y := clientY e |} /\
  isDark (ui (App.engine (App.run w (evs ++ App.MouseMove document e :: rest))))
    = existsb marked (ancestors (document (clientX e) (clientY e))) /\
  Render.color (ui (App.engine (App.run w (evs ++ App.MouseMove document e :: rest))))
    = if existsb marked (ancestors (document (clientX e) (clientY e)))
      then "#fff" else "#000".
Proof.
  intros Hrest. rewrite run_app. generalize (App.run w evs). intros w'.
  change (App.run w' (App.MouseMove document e :: rest))
    with (App.run (App.step w' (App.MouseMove document e)) rest).
  assert (H0 : pos (ui (App.engine (App.step w' (App.MouseMove document e))))
               = {| Pos.x := clientX e; Pos.y := clientY e |} /\
               isDark (ui (App.engine (App.step w' (App.MouseMove document e))))
               = existsb marked (ancestors (document (clientX e) (clientY e)))).
  { split; [reflexivity|]. simpl. apply isDarkBg_ancestors. }
  revert H0. generalize (App.step w' (App.MouseMove document e)). clear w'.
  induction rest as [|ev rest IH]; intros w' [Hp Hd].
  - unfold Render.color. cbn [App.run fold_left]. now rewrite Hp, Hd.
  - simpl in Hrest. apply andb_prop in Hrest as [Hev Hrest].
    cbn [App.run fold_left]. apply (IH Hrest).
    apply negb_true_iff in Hev.
    destruct (pointer_frame w' ev Hev) as [Hp' Hd']. now rewrite Hp', Hd'.
Qed.

Lemma pointer_follows_last_move_witness :
  pos (ui (App.engine (App.run App.start
    ([App.MouseDown] ++
     App.MouseMove (fun _ _ => Some (El (Some "bg-black text-white") None))
       {| clientX := 30; clientY := 40 |}
     :: [App.MouseUp; App.CardClick 0; App.Elapse 5]))))
  = {| Pos.x := 30; Pos.y := 40 |}.
Proof.
  apply (pointer_follows_last_move App.start [App.MouseDown]
    [App.MouseUp; App.CardClick 0; App.Elapse 5]
    (fun _ _ => Some (El (Some "bg-black text-white") None))
    {| clientX := 30; clientY := 40 |}).
  reflexivity.
Defined.

End StalePointerProps.
